(** * RpcContext: the server-side completion object of a Kudu RPC

    A shallow embedding of [kudu::rpc::RpcContext] (src/rpc/rpc_context.h).
    The header declares the class, its fields and its documented contract;
    the method bodies (rpc_context.cc) and the collaborators they call
    ([InboundCall], the protobuf runtime, the client side of the error
    envelope) are not part of the sources, so those parts are modelled
    from the spec and marked as such.

    The world the handler runs in is explicit state:
    - a heap of protobuf objects addressed by pointers ([loc]), from which
      the context's owned request/response objects are released on
      completion ([gscoped_ptr] ownership, "delete this");
    - the context itself, [None] once it has been destroyed;
    - the pending [InboundCall] (owned by the transport layer);
    - the shared method metrics. *)

From Stdlib Require Import List Lia.
From stdpp Require Import base gmap list strings.

Local Open Scope list_scope.

(** ** Protobuf messages and their wire encoding *)

(** A protobuf message as its list of fields: field number and the
    field's encoded bytes. *)
Definition Field : Type := (N * list N)%type.
Definition Message : Type := list Field.

(** Modelled from the spec: protobuf serialization (the protobuf runtime
    is not part of the sources). Tag, length, payload, field by field. *)
Fixpoint SerializeToString (m : Message) : list N :=
  match m with
  | [] => []
  | (tag, v) :: rest => tag :: N.of_nat (length v) :: v ++ SerializeToString rest
  end.

(** Modelled from the spec: protobuf parsing, the inverse of
    [SerializeToString]; [fuel] bounds the number of fields read. *)
Fixpoint ParseFuel (fuel : nat) (bs : list N) : option Message :=
  match bs with
  | [] => Some []
  | tag :: len :: rest =>
      match fuel with
      | O => None
      | S fuel' =>
          let n := N.to_nat len in
          if decide (n <= length rest) then
            match ParseFuel fuel' (drop n rest) with
            | Some r => Some ((tag, take n rest) :: r)
            | None => None
            end
          else None
      end
  | [_] => None
  end.

Definition ParseFromString (bs : list N) : option Message :=
  ParseFuel (length bs) bs.

(** ** Status (util/status.h) *)

Inductive StatusCode : Type :=
| kOk | kNotFound | kCorruption | kNotSupported | kInvalidArgument
| kIOError | kAlreadyPresent | kRuntimeError | kNetworkError
| kIllegalState | kNotAuthorized | kAborted | kRemoteError
| kServiceUnavailable | kTimedOut.

Record Status : Type := mkStatus {
  status_code : StatusCode;
  status_message : string
}.

Definition RemoteError (msg : string) : Status := mkStatus kRemoteError msg.

(** ** The wire-level error envelope (ErrorStatusPB) *)

Inductive RpcErrorCodePB : Type :=
| ERROR_APPLICATION
| ERROR_NO_SUCH_METHOD
| ERROR_NO_SUCH_SERVICE
| ERROR_SERVER_TOO_BUSY
| ERROR_INVALID_REQUEST
| FATAL_UNKNOWN.

(** [message], the optional [code], and at most one application error
    extension: its extension number and the serialized extension message. *)
Record ErrorStatusPB : Type := mkErrorStatusPB {
  esp_message : string;
  esp_code : option RpcErrorCodePB;
  esp_app_error : option (Z * list N)
}.

(** Modelled from the spec: the client's
    [controller->error_response()->GetExtension(ext)]. *)
Definition GetExtension (ext_id : Z) (err : ErrorStatusPB) : option Message :=
  match esp_app_error err with
  | Some (id, bs) => if Z.eq_dec id ext_id then ParseFromString bs else None
  | None => None
  end.

(** What the context hands to the pending call. *)
Inductive Frame : Type :=
| SuccessFrame (payload : list N)
| ErrorFrame (err : ErrorStatusPB).

(** Modelled from the spec: the status the calling client observes for a
    frame ("the caller gets a RemoteError status with the provided string
    message"). *)
Definition client_status (f : Frame) : Status :=
  match f with
  | SuccessFrame _ => mkStatus kOk ""
  | ErrorFrame err => RemoteError (esp_message err)
  end.

(** ** The pending call (InboundCall) *)

Record InboundCall : Type := mkInboundCall {
  ic_user : string;              (** UserCredentials, printed *)
  ic_remote : string;            (** Sockaddr, printed *)
  ic_trace : positive;           (** the call's Trace buffer *)
  ic_conn_open : bool;           (** transport state of the connection *)
  ic_responses : list Frame;     (** every frame handed to the call *)
  ic_sent : list Frame;          (** frames put on the wire *)
  ic_dropped : nat               (** frames dropped, logged and counted *)
}.

(** Modelled from the spec: [InboundCall::Respond*]. The frame is handed
    to the call; transmission is best effort: on a closed connection the
    frame is dropped and counted, nothing is reported back. *)
Definition InboundCall_Respond (f : Frame) (c : InboundCall) : InboundCall :=
  mkInboundCall (ic_user c) (ic_remote c) (ic_trace c) (ic_conn_open c)
    (ic_responses c ++ [f])
    (if ic_conn_open c then ic_sent c ++ [f] else ic_sent c)
    (if ic_conn_open c then ic_dropped c else S (ic_dropped c)).

(** ** Metrics (RpcMethodMetrics) *)

Record RpcMethodMetrics : Type := mkMetrics {
  m_success : nat;
  m_failure : nat
}.

(** ** The context and its world *)

Abbreviation loc := positive (only parsing).

(** The fields of [RpcContext]: [call_], [request_pb_], [response_pb_];
    [metrics_] refers to the world's shared metrics. *)
Record RpcContext : Type := mkRpcContext {
  call_ : positive;
  request_pb_ : loc;
  response_pb_ : loc
}.

Record World : Type := mkWorld {
  heap : gmap positive Message;
  ctx : option RpcContext;
  call : InboundCall;
  metrics : RpcMethodMetrics
}.

(** Values a method can return to the handler. *)
Inductive Value : Type :=
| VUnit
| VTrace (t : positive)
| VCreds (user : string)
| VAddr (addr : string)
| VStr (s : string)
| VConstPtr (l : loc)      (** [const google::protobuf::Message *] *)
| VMutPtr (l : loc).       (** [google::protobuf::Message *] *)

(** Detectable misuse, as a checked build reports it. *)
Inductive Fault : Type :=
| UseAfterDestroy          (** a method called on a destroyed context *)
| UseAfterFree.            (** a freed protobuf object accessed *)

Definition Result : Type := (Value + Fault)%type.

(** The context's constructor. It stores the pointers it is given: the
    request and response objects become owned by the context, nothing is
    allocated or copied. *)
Definition RpcContext_new (call_id : positive) (req resp : loc) (w : World) : World :=
  mkWorld (heap w) (Some (mkRpcContext call_id req resp)) (call w) (metrics w).

(** The context's destructor: the two [gscoped_ptr]s release the request
    and the response; the context is gone. The call is not freed. *)
Definition destroy (c : RpcContext) (w : World) : World :=
  mkWorld (delete (request_pb_ c) (delete (response_pb_ c) (heap w))) None
    (call w) (metrics w).

Definition respond_on_call (f : Frame) (w : World) : World :=
  mkWorld (heap w) (ctx w) (InboundCall_Respond f (call w)) (metrics w).

Definition count_success (w : World) : World :=
  mkWorld (heap w) (ctx w) (call w)
    (mkMetrics (S (m_success (metrics w))) (m_failure (metrics w))).

Definition count_failure (w : World) : World :=
  mkWorld (heap w) (ctx w) (call w)
    (mkMetrics (m_success (metrics w)) (S (m_failure (metrics w)))).

(** The methods of [RpcContext]. *)
Inductive Method : Type :=
| Trace
| UserCredentials
| RemoteAddress
| RequestorString
| RequestPb
| ResponsePb
| RespondSuccess
| RespondFailure (s : Status)
| RespondApplicationError (error_ext_id : Z) (message : string) (app_error_pb : Message).

Definition is_completion (m : Method) : bool :=
  match m with
  | RespondSuccess | RespondFailure _ | RespondApplicationError _ _ _ => true
  | _ => false
  end.

Definition is_accessor (m : Method) : bool := negb (is_completion m).

(** Modelled from the spec: the envelope of [RespondFailure]. *)
Definition failure_envelope (s : Status) : ErrorStatusPB :=
  mkErrorStatusPB (status_message s) (Some ERROR_APPLICATION) None.

(** Modelled from the spec: the envelope of [RespondApplicationError]. *)
Definition application_error_envelope (error_ext_id : Z) (message : string)
    (app_error_pb : Message) : ErrorStatusPB :=
  mkErrorStatusPB message None (Some (error_ext_id, SerializeToString app_error_pb)).

(** Modelled from the spec, with the header's documented contract: one
    method call on the context. Every completion hands one frame to the
    pending call, updates the metrics and destroys the context before it
    returns. A method on a destroyed context is a detectable fault that
    changes nothing. *)
Definition exec (m : Method) (w : World) : Result * World :=
  match ctx w with
  | None => (inr UseAfterDestroy, w)
  | Some c =>
      match m with
      | Trace => (inl (VTrace (ic_trace (call w))), w)
      | UserCredentials => (inl (VCreds (ic_user (call w))), w)
      | RemoteAddress => (inl (VAddr (ic_remote (call w))), w)
      | RequestorString =>
          (inl (VStr (ic_user (call w) +:+ " at " +:+ ic_remote (call w))), w)
      | RequestPb => (inl (VConstPtr (request_pb_ c)), w)
      | ResponsePb => (inl (VMutPtr (response_pb_ c)), w)
      | RespondSuccess =>
          match heap w !! response_pb_ c with
          | Some resp =>
              (inl VUnit,
               destroy c (count_success
                 (respond_on_call (SuccessFrame (SerializeToString resp)) w)))
          | None => (inr UseAfterFree, w)
          end
      | RespondFailure s =>
          (inl VUnit,
           destroy c (count_failure (respond_on_call (ErrorFrame (failure_envelope s)) w)))
      | RespondApplicationError id msg pb =>
          (inl VUnit,
           destroy c (count_failure (respond_on_call
             (ErrorFrame (application_error_envelope id msg pb)) w)))
      end
  end.

(** ** Handler programs

    What a handler does with its context: call one of its methods, write
    a new content into the response through the pointer [response_pb()]
    returns, or read a protobuf object through a pointer it holds. *)

Definition load_message (l : loc) (w : World) : option Message + Fault :=
  match heap w !! l with
  | Some m => inl (Some m)
  | None => inr UseAfterFree
  end.

Definition store_message (l : loc) (m : Message) (w : World) : Result * World :=
  match heap w !! l with
  | Some _ => (inl VUnit, mkWorld (<[l:=m]> (heap w)) (ctx w) (call w) (metrics w))
  | None => (inr UseAfterFree, w)
  end.

Inductive Action : Type :=
| Invoke (m : Method)
| WriteResponse (m : Message).       (** [*ctx->response_pb() = m] *)

Definition step (a : Action) (w : World) : Result * World :=
  match a with
  | Invoke m => exec m w
  | WriteResponse msg =>
      match exec ResponsePb w with
      | (inl (VMutPtr l), w1) => store_message l msg w1
      | (r, w1) => (r, w1)
      end
  end.

Fixpoint run (acts : list Action) (w : World) : list Result * World :=
  match acts with
  | [] => ([], w)
  | a :: rest =>
      let (r, w1) := step a w in
      let (rs, w2) := run rest w1 in
      (r :: rs, w2)
  end.

(** The ownership invariant of a live context: it owns two distinct
    protobuf objects that are allocated. *)
Definition ctx_wf (w : World) : Prop :=
  match ctx w with
  | None => True
  | Some c =>
      request_pb_ c <> response_pb_ c /\
      is_Some (heap w !! request_pb_ c) /\ is_Some (heap w !! response_pb_ c)
  end.

(** The header's convention for application error extension numbers:
    "an integer greater than 101 and unique across your code base". *)
Definition valid_error_ext_id (id : Z) : bool := Z.ltb 101 id.

(** ** Concrete worlds *)

Definition call0 (open : bool) : InboundCall :=
  mkInboundCall "alice" "10.0.0.1:7050" 1%positive open [] [] 0.

(** A fresh dispatch: request [{id:7}] at pointer 1, empty response at
    pointer 2, context constructed on call 5. *)
Definition request7 : Message := [(1%N, [7%N])].

Definition world0 (open : bool) : World :=
  RpcContext_new 5%positive 1%positive 2%positive
    (mkWorld (<[1%positive:=request7]> (<[2%positive:=[]]> ∅)) None (call0 open)
       (mkMetrics 0 0)).

Definition result_ok : Message := [(1%N, [111%N; 107%N])].

Example success_scenario :
  match run [WriteResponse result_ok; Invoke RespondSuccess] (world0 true) with
  | (_, w) => option_map (fun f => match f with
                                   | SuccessFrame bs => ParseFromString bs
                                   | ErrorFrame _ => None end)
                         (last (ic_sent (call w)))
  end = Some (Some result_ok).
Proof. vm_compute. reflexivity. Qed.

Definition retry_after_30 : Message := [(1%N, [30%N])].

Example application_error_scenario :
  match run [Invoke (RespondApplicationError 150 "quota exceeded" retry_after_30)]
            (world0 true) with
  | (_, w) => match ic_responses (call w) with
              | [ErrorFrame err] => (GetExtension 150 err, esp_message err)
              | _ => (None, "")
              end
  end = (Some retry_after_30, "quota exceeded").
Proof. vm_compute. reflexivity. Qed.

(** ** Serialization round trip *)

Lemma length_le_SerializeToString (m : Message) :
  length m <= length (SerializeToString m).
Proof.
  induction m as [|[tag v] rest IH]; simpl; [lia|].
  rewrite length_app. lia.
Qed.

Lemma ParseFuel_SerializeToString (m : Message) (fuel : nat) :
  length m <= fuel -> ParseFuel fuel (SerializeToString m) = Some m.
Proof.
  revert fuel.
  induction m as [|[tag v] rest IH]; intros fuel Hf; [destruct fuel; reflexivity|].
  destruct fuel as [|fuel']; simpl in Hf; [lia|].
  cbn [SerializeToString ParseFuel].
  rewrite Nat2N.id.
  rewrite decide_True by (rewrite length_app; lia).
  rewrite drop_app_length, take_app_length.
  rewrite IH by lia. reflexivity.
Qed.

Lemma ParseFromString_SerializeToString (m : Message) :
  ParseFromString (SerializeToString m) = Some m.
Proof.
  apply ParseFuel_SerializeToString, length_le_SerializeToString.
Qed.

(** ** How one step changes the world *)

Ltac unfold_world :=
  unfold step, exec, store_message, destroy, count_success, count_failure,
    respond_on_call, InboundCall_Respond in *.

Lemma exec_destroyed (m : Method) (w : World) :
  ctx w = None -> exec m w = (inr UseAfterDestroy, w).
Proof. intros H. unfold exec. rewrite H. reflexivity. Qed.

Lemma step_destroyed (a : Action) (w : World) :
  ctx w = None -> step a w = (inr UseAfterDestroy, w).
Proof.
  intros H. destruct a; simpl; rewrite (exec_destroyed _ _ H); reflexivity.
Qed.

Lemma run_destroyed (acts : list Action) (w : World) :
  ctx w = None -> snd (run acts w) = w.
Proof.
  intros H. induction acts as [|a rest IH]; [reflexivity|].
  simpl. rewrite (step_destroyed _ _ H).
  destruct (run rest w) as [rs w2] eqn:E. simpl in *. exact IH.
Qed.

Lemma exec_accessor (m : Method) (w : World) :
  is_accessor m = true -> snd (exec m w) = w.
Proof.
  intros Hm. unfold exec.
  destruct (ctx w); [|reflexivity].
  destruct m; try discriminate; reflexivity.
Qed.

Lemma exec_completion_destroys (m : Method) (w : World) (c : RpcContext) :
  ctx w = Some c -> ctx_wf w -> is_completion m = true ->
  exists f,
    exec m w =
      (inl VUnit,
       mkWorld (delete (request_pb_ c) (delete (response_pb_ c) (heap w))) None
         (InboundCall_Respond f (call w))
         (match m with
          | RespondSuccess => mkMetrics (S (m_success (metrics w))) (m_failure (metrics w))
          | _ => mkMetrics (m_success (metrics w)) (S (m_failure (metrics w)))
          end)).
Proof.
  intros Hc Hwf Hm. unfold ctx_wf in Hwf. rewrite Hc in Hwf.
  destruct Hwf as (_ & _ & [resp Hresp]).
  unfold exec. rewrite Hc.
  destruct m; try discriminate.
  - rewrite Hresp. eexists. reflexivity.
  - eexists. reflexivity.
  - eexists. reflexivity.
Qed.

(** The context of the world is the same one, or gone. *)
Lemma step_ctx (a : Action) (w : World) :
  ctx (snd (step a w)) = ctx w \/ ctx (snd (step a w)) = None.
Proof.
  destruct (ctx w) as [c|] eqn:Hc;
    [|right; rewrite (step_destroyed _ _ Hc); exact Hc].
  destruct a as [m|msg]; simpl.
  - unfold exec. rewrite Hc.
    destruct m; simpl; auto.
    destruct (heap w !! response_pb_ c); simpl; auto.
  - unfold exec. rewrite Hc. unfold store_message.
    destruct (heap w !! response_pb_ c); simpl; auto.
Qed.

Lemma run_ctx (acts : list Action) (w : World) :
  ctx (snd (run acts w)) = ctx w \/ ctx (snd (run acts w)) = None.
Proof.
  revert w. induction acts as [|a rest IH]; intros w; [left; reflexivity|].
  simpl. destruct (step a w) as [r w1] eqn:E1.
  destruct (run rest w1) as [rs w2] eqn:E2. simpl.
  pose proof (step_ctx a w) as Hs. rewrite E1 in Hs. simpl in Hs.
  specialize (IH w1). rewrite E2 in IH. simpl in IH.
  destruct IH as [-> | ->]; auto.
Qed.

(** Over a handler run, the context is live and has handed nothing to
    the call, or it is destroyed and has handed exactly one frame. *)
Definition completion_inv (w : World) : Prop :=
  (ctx w <> None /\ ic_responses (call w) = []) \/
  (ctx w = None /\ length (ic_responses (call w)) = 1).

Lemma step_completion_inv (a : Action) (w : World) :
  completion_inv w -> completion_inv (snd (step a w)).
Proof.
  intros H. destruct (ctx w) as [c|] eqn:Hc.
  2: { rewrite (step_destroyed _ _ Hc). exact H. }
  destruct H as [[_ Hr] | [Hn _]]; [|congruence].
  unfold completion_inv.
  destruct a as [m|msg]; simpl; unfold exec; rewrite Hc.
  - destruct m; simpl;
      try (left; split; [congruence|assumption]);
      try (right; rewrite Hr; split; reflexivity).
    destruct (heap w !! response_pb_ c); simpl.
    + right. rewrite Hr. split; reflexivity.
    + left. split; [congruence|assumption].
  - unfold store_message.
    destruct (heap w !! response_pb_ c); simpl; left; split; congruence.
Qed.

Lemma run_completion_inv (acts : list Action) (w : World) :
  completion_inv w -> completion_inv (snd (run acts w)).
Proof.
  revert w. induction acts as [|a rest IH]; intros w H; [exact H|].
  simpl. destruct (step a w) as [r w1] eqn:E1.
  destruct (run rest w1) as [rs w2] eqn:E2. simpl.
  pose proof (step_completion_inv a w H) as H1. rewrite E1 in H1.
  specialize (IH w1 H1). rewrite E2 in IH. exact IH.
Qed.

(** ** Claims *)

(** C1. Exactly one completion operation per context: over any handler
    run that starts from a freshly dispatched context, at most one frame
    is handed to the pending call, and the context is destroyed exactly
    when one has been; a second completion operation after a first one is
    a detectable fault ([UseAfterDestroy]) that leaves the world as it
    was. *)
Theorem completion_exactly_once (acts : list Action) (w : World) (c : RpcContext)
    (Hctx : ctx w = Some c) (Hwf : ctx_wf w) (Hfresh : ic_responses (call w) = []) :
  (length (ic_responses (call (snd (run acts w)))) <= 1 /\
   (ctx (snd (run acts w)) = None <->
    length (ic_responses (call (snd (run acts w)))) = 1)) /\
  (forall m1 m2 : Method,
     is_completion m1 = true -> is_completion m2 = true ->
     exec m2 (snd (exec m1 w)) = (inr UseAfterDestroy, snd (exec m1 w))).
Proof.
  split.
  - assert (Hi : completion_inv (snd (run acts w))).
    { apply run_completion_inv. left. split; [congruence|exact Hfresh]. }
    destruct Hi as [[Hn Hr] | [Hn Hl]].
    + rewrite Hr. simpl. split; [lia|]. split; [congruence|discriminate].
    + rewrite Hl. split; [lia|]. tauto.
  - intros m1 m2 H1 H2.
    destruct (exec_completion_destroys m1 w c Hctx Hwf H1) as [f Hf].
    rewrite Hf. simpl. apply exec_destroyed. reflexivity.
Qed.

Lemma world0_wf (open : bool) : ctx_wf (world0 open).
Proof.
  unfold ctx_wf. simpl. split; [discriminate|]. split; eexists; reflexivity.
Qed.

Lemma completion_exactly_once_witness :
  ctx (world0 true) = Some (mkRpcContext 5 1 2) /\
  ic_responses (call (world0 true)) = [] /\
  length (ic_responses (call (snd (run [WriteResponse result_ok; Invoke RespondSuccess;
                                         Invoke (RespondFailure (mkStatus kAborted "late"))]
                                        (world0 true))))) = 1.
Proof.
  split; [reflexivity|]. split; [reflexivity|].
  apply (completion_exactly_once
           [WriteResponse result_ok; Invoke RespondSuccess;
            Invoke (RespondFailure (mkStatus kAborted "late"))]
           (world0 true) (mkRpcContext 5 1 2) eq_refl (world0_wf true) eq_refl).
  vm_compute. reflexivity.
Defined.

(** C2. [RespondSuccess] hands the pending call the serialization of
    exactly the content the response object holds at the call, and that
    payload parses back to that content. *)
Theorem respond_success_payload (w : World) (c : RpcContext) (resp : Message)
    (Hctx : ctx w = Some c) (Hresp : heap w !! response_pb_ c = Some resp) :
  fst (exec RespondSuccess w) = inl VUnit /\
  ic_responses (call (snd (exec RespondSuccess w))) =
    ic_responses (call w) ++ [SuccessFrame (SerializeToString resp)] /\
  ParseFromString (SerializeToString resp) = Some resp.
Proof.
  unfold exec. rewrite Hctx, Hresp. simpl.
  split; [reflexivity|]. split; [reflexivity|].
  apply ParseFromString_SerializeToString.
Qed.

Lemma respond_success_payload_witness :
  ic_responses (call (snd (exec RespondSuccess
     (snd (step (WriteResponse result_ok) (world0 true)))))) =
  [SuccessFrame (SerializeToString result_ok)] /\
  ParseFromString (SerializeToString result_ok) = Some result_ok.
Proof.
  destruct (respond_success_payload (snd (step (WriteResponse result_ok) (world0 true)))
              (mkRpcContext 5 1 2) result_ok eq_refl eq_refl) as (_ & H2 & H3).
  split; [exact H2|exact H3].
Defined.

(** C3. [RespondFailure status] hands the pending call an error envelope
    with code ERROR_APPLICATION, the status's message, and no application
    error extension. *)
Theorem respond_failure_envelope (w : World) (c : RpcContext) (s : Status)
    (Hctx : ctx w = Some c) :
  exists err,
    ic_responses (call (snd (exec (RespondFailure s) w))) =
      ic_responses (call w) ++ [ErrorFrame err] /\
    esp_code err = Some ERROR_APPLICATION /\
    esp_message err = status_message s /\
    esp_app_error err = None /\
    (forall id, GetExtension id err = None).
Proof.
  unfold exec. rewrite Hctx. simpl.
  exists (failure_envelope s).
  repeat split; reflexivity.
Qed.

Lemma respond_failure_envelope_witness :
  exists err,
    ic_responses (call (snd (exec (RespondFailure (mkStatus kNotFound "no tablet"))
                               (world0 false)))) = [ErrorFrame err] /\
    esp_code err = Some ERROR_APPLICATION /\ esp_message err = "no tablet" /\
    esp_app_error err = None.
Proof.
  destruct (respond_failure_envelope (world0 false) (mkRpcContext 5 1 2)
              (mkStatus kNotFound "no tablet") eq_refl)
    as (err & H1 & H2 & H3 & H4 & _).
  exists err. repeat split; assumption.
Defined.

(** C4. [RespondApplicationError id msg pb] hands the pending call an
    error envelope whose message is [msg] and whose extension [id] parses
    to [pb]; the client observes a RemoteError status carrying [msg]. *)
Theorem respond_application_error_envelope (w : World) (c : RpcContext)
    (id : Z) (msg : string) (pb : Message) (Hctx : ctx w = Some c) :
  exists err,
    ic_responses (call (snd (exec (RespondApplicationError id msg pb) w))) =
      ic_responses (call w) ++ [ErrorFrame err] /\
    esp_message err = msg /\
    GetExtension id err = Some pb /\
    client_status (ErrorFrame err) = RemoteError msg.
Proof.
  unfold exec. rewrite Hctx. simpl.
  exists (application_error_envelope id msg pb).
  split; [reflexivity|]. split; [reflexivity|]. split; [|reflexivity].
  unfold GetExtension, application_error_envelope. simpl.
  destruct (Z.eq_dec id id) as [_|Hne]; [|congruence].
  apply ParseFromString_SerializeToString.
Qed.

Lemma respond_application_error_envelope_witness :
  exists err,
    ic_responses (call (snd (exec (RespondApplicationError 150 "quota exceeded"
                                                           retry_after_30)
                               (world0 true)))) = [ErrorFrame err] /\
    esp_message err = "quota exceeded" /\
    GetExtension 150 err = Some retry_after_30 /\
    client_status (ErrorFrame err) = RemoteError "quota exceeded".
Proof.
  exact (respond_application_error_envelope (world0 true) (mkRpcContext 5 1 2)
           150 "quota exceeded" retry_after_30 eq_refl).
Defined.

(** C5. Every completion operation destroys the context, the request and
    the response before it returns: afterwards both protobuf objects are
    freed, reading either is [UseAfterFree], and every method of the
    context and every write through [response_pb()] is [UseAfterDestroy]. *)
Theorem completion_destroys_context (w : World) (c : RpcContext) (m : Method)
    (Hctx : ctx w = Some c) (Hwf : ctx_wf w) (Hm : is_completion m = true) :
  let w' := snd (exec m w) in
  fst (exec m w) = inl VUnit /\
  ctx w' = None /\
  heap w' !! request_pb_ c = None /\ heap w' !! response_pb_ c = None /\
  load_message (request_pb_ c) w' = inr UseAfterFree /\
  load_message (response_pb_ c) w' = inr UseAfterFree /\
  (forall m', exec m' w' = (inr UseAfterDestroy, w')) /\
  (forall msg, step (WriteResponse msg) w' = (inr UseAfterDestroy, w')).
Proof.
  destruct (exec_completion_destroys m w c Hctx Hwf Hm) as [f Hf].
  intros w'. subst w'. rewrite Hf. simpl.
  assert (Hreq : delete (request_pb_ c) (delete (response_pb_ c) (heap w))
                   !! request_pb_ c = None) by apply lookup_delete_eq.
  assert (Hresp : delete (request_pb_ c) (delete (response_pb_ c) (heap w))
                    !! response_pb_ c = None).
  { destruct (decide (request_pb_ c = response_pb_ c)) as [->|Hne].
    - apply lookup_delete_eq.
    - rewrite lookup_delete_ne by congruence. apply lookup_delete_eq. }
  unfold load_message. simpl. rewrite Hreq, Hresp.
  repeat split; try reflexivity.
  all: try (intros m'; apply exec_destroyed; reflexivity).
  all: try (intros msg; apply step_destroyed; reflexivity).
Qed.

Lemma completion_destroys_context_witness :
  load_message 1 (snd (exec (RespondFailure (mkStatus kIOError "disk")) (world0 true)))
    = inr UseAfterFree.
Proof.
  destruct (completion_destroys_context (world0 true) (mkRpcContext 5 1 2)
              (RespondFailure (mkStatus kIOError "disk")) eq_refl (world0_wf true)
              eq_refl) as (_ & _ & _ & _ & H & _).
  exact H.
Defined.

(** C6. A completion operation on a live context returns to the handler
    without error whatever the transport state; on a closed connection
    the frame is dropped and counted inside the pending call. *)
Theorem completion_never_fails (w : World) (c : RpcContext) (m : Method)
    (Hctx : ctx w = Some c) (Hwf : ctx_wf w) (Hm : is_completion m = true) :
  fst (exec m w) = inl VUnit /\
  (ic_conn_open (call w) = false ->
   ic_sent (call (snd (exec m w))) = ic_sent (call w) /\
   ic_dropped (call (snd (exec m w))) = S (ic_dropped (call w))).
Proof.
  destruct (exec_completion_destroys m w c Hctx Hwf Hm) as [f Hf].
  rewrite Hf. simpl. split; [reflexivity|].
  intros Hclosed. unfold InboundCall_Respond. rewrite Hclosed. simpl.
  split; reflexivity.
Qed.

Lemma completion_never_fails_witness :
  fst (exec RespondSuccess (world0 false)) = inl VUnit /\
  ic_dropped (call (snd (exec RespondSuccess (world0 false)))) = 1.
Proof.
  destruct (completion_never_fails (world0 false) (mkRpcContext 5 1 2) RespondSuccess
              eq_refl (world0_wf false) eq_refl) as [H1 H2].
  split; [exact H1|]. apply H2. reflexivity.
Defined.

(** C9. The context does not check the extension number it is given:
    whatever [error_ext_id] (also one the header's convention
    [valid_error_ext_id] rejects), the completion succeeds and the
    envelope carries that very number with the serialized payload. *)
Theorem application_error_id_echoed (w : World) (c : RpcContext)
    (id : Z) (msg : string) (pb : Message) (Hctx : ctx w = Some c) :
  fst (exec (RespondApplicationError id msg pb) w) = inl VUnit /\
  exists err,
    ic_responses (call (snd (exec (RespondApplicationError id msg pb) w))) =
      ic_responses (call w) ++ [ErrorFrame err] /\
    esp_app_error err = Some (id, SerializeToString pb).
Proof.
  unfold exec. rewrite Hctx. simpl. split; [reflexivity|].
  exists (application_error_envelope id msg pb). split; reflexivity.
Qed.

Lemma application_error_id_echoed_witness :
  valid_error_ext_id 101 = false /\
  fst (exec (RespondApplicationError 101 "Some error occurred" retry_after_30)
         (world0 true)) = inl VUnit.
Proof.
  split; [reflexivity|].
  exact (proj1 (application_error_id_echoed (world0 true) (mkRpcContext 5 1 2)
                  101 "Some error occurred" retry_after_30 eq_refl)).
Defined.

(** The request of context [c0] holds its original content [q] while
    [c0] lives, and is freed once [c0] is destroyed. *)
Definition request_inv (c0 : RpcContext) (q : Message) (w : World) : Prop :=
  (ctx w = Some c0 /\ heap w !! request_pb_ c0 = Some q) \/
  (ctx w = None /\ heap w !! request_pb_ c0 = None).

Lemma step_request_inv (c0 : RpcContext) (q : Message) (a : Action) (w : World) :
  request_pb_ c0 <> response_pb_ c0 ->
  request_inv c0 q w -> request_inv c0 q (snd (step a w)).
Proof.
  intros Hne H.
  destruct H as [[Hc Hq] | [Hc Hq]].
  2: { rewrite (step_destroyed _ _ Hc). right. split; assumption. }
  unfold request_inv.
  destruct a as [m|msg]; simpl; unfold exec; rewrite Hc.
  - destruct m; simpl; try (left; split; assumption);
      try (right; split; [reflexivity|apply lookup_delete_eq]).
    destruct (heap w !! response_pb_ c0); simpl.
    + right. split; [reflexivity|apply lookup_delete_eq].
    + left. split; assumption.
  - unfold store_message.
    destruct (heap w !! response_pb_ c0); simpl.
    + left. split; [assumption|]. rewrite lookup_insert_ne by congruence. exact Hq.
    + left. split; assumption.
Qed.

Lemma run_request_inv (c0 : RpcContext) (q : Message) (acts : list Action) (w : World) :
  request_pb_ c0 <> response_pb_ c0 ->
  request_inv c0 q w -> request_inv c0 q (snd (run acts w)).
Proof.
  intros Hne. revert w. induction acts as [|a rest IH]; intros w H; [exact H|].
  simpl. destruct (step a w) as [r w1] eqn:E1.
  destruct (run rest w1) as [rs w2] eqn:E2. simpl.
  pose proof (step_request_inv c0 q a w Hne H) as H1. rewrite E1 in H1.
  specialize (IH w1 H1). rewrite E2 in IH. exact IH.
Qed.

(** C7. The request is never mutated: over any handler run, the request
    object keeps the content it had at dispatch for as long as the
    context lives (and is only ever freed, by a completion); the only
    pointer to it the context hands out is the const one of
    [request_pb()], and no method returns a mutable pointer to it. *)
Theorem request_never_mutated (acts : list Action) (w : World) (c : RpcContext)
    (q : Message) (Hctx : ctx w = Some c) (Hwf : ctx_wf w)
    (Hq : heap w !! request_pb_ c = Some q) :
  let w' := snd (run acts w) in
  (ctx w' <> None -> heap w' !! request_pb_ c = Some q) /\
  (heap w' !! request_pb_ c = Some q \/ heap w' !! request_pb_ c = None) /\
  (forall m l, fst (exec m w') = inl (VMutPtr l) -> l <> request_pb_ c) /\
  (forall m l, fst (exec m w') = inl (VConstPtr l) -> m = RequestPb /\ l = request_pb_ c).
Proof.
  unfold ctx_wf in Hwf. rewrite Hctx in Hwf. destruct Hwf as [Hne _].
  intros w'.
  assert (Hi : request_inv c q w').
  { apply run_request_inv; [exact Hne|]. left. split; assumption. }
  destruct Hi as [[Hc Hq'] | [Hc Hq']].
  - split; [intros _; exact Hq'|]. split; [left; exact Hq'|].
    unfold exec. rewrite Hc.
    split; intros m l E; destruct m; simpl in E;
      repeat case_match; simplify_eq; auto.
  - split; [congruence|]. split; [right; exact Hq'|].
    split; intros m l; rewrite (exec_destroyed _ _ Hc); discriminate.
Qed.

Lemma request_never_mutated_witness :
  heap (snd (run [WriteResponse result_ok; Invoke RequestPb; Invoke ResponsePb]
                 (world0 true))) !! 1%positive = Some request7.
Proof.
  apply (request_never_mutated [WriteResponse result_ok; Invoke RequestPb; Invoke ResponsePb]
           (world0 true) (mkRpcContext 5 1 2) request7 eq_refl (world0_wf true) eq_refl).
  vm_compute. discriminate.
Defined.

(** C8. Construction stores the given request and response pointers: the
    heap is untouched (nothing copied or allocated), and for as long as
    the context lives, whatever the handler did in between,
    [request_pb()] and [response_pb()] return exactly those pointers. *)
Theorem construction_keeps_objects (call_id : positive) (req resp : loc)
    (w : World) (acts : list Action) :
  heap (RpcContext_new call_id req resp w) = heap w /\
  (ctx (snd (run acts (RpcContext_new call_id req resp w))) <> None ->
   fst (exec RequestPb (snd (run acts (RpcContext_new call_id req resp w)))) =
     inl (VConstPtr req) /\
   fst (exec ResponsePb (snd (run acts (RpcContext_new call_id req resp w)))) =
     inl (VMutPtr resp)).
Proof.
  split; [reflexivity|].
  intros Hlive.
  destruct (run_ctx acts (RpcContext_new call_id req resp w)) as [Hc|Hc];
    [|contradiction].
  unfold exec. rewrite Hc. simpl. split; reflexivity.
Qed.

Lemma construction_keeps_objects_witness :
  fst (exec ResponsePb (snd (run [WriteResponse result_ok; Invoke Trace]
                                 (world0 true)))) = inl (VMutPtr 2).
Proof.
  apply (construction_keeps_objects 5 1 2
           (mkWorld (<[1%positive:=request7]> (<[2%positive:=[]]> ∅)) None (call0 true)
              (mkMetrics 0 0))
           [WriteResponse result_ok; Invoke Trace]).
  vm_compute. discriminate.
Defined.

(** C10. Accessors are not terminal: any sequence of [trace()],
    [user_credentials()], [remote_address()], [requestor_string()],
    [request_pb()] and [response_pb()] on a live context leaves the whole
    world, and so the context and the objects it owns, as it was. *)
Theorem accessors_leave_context_unchanged (ms : list Method) (w : World)
    (c : RpcContext) (Hctx : ctx w = Some c)
    (Hacc : Forall (fun m => is_accessor m = true) ms) :
  snd (run (map Invoke ms) w) = w /\ ctx (snd (run (map Invoke ms) w)) = Some c.
Proof.
  assert (Hrun : snd (run (map Invoke ms) w) = w).
  { induction Hacc as [|m ms Hm _ IH]; [reflexivity|].
    simpl. destruct (exec m w) as [r w1] eqn:E.
    pose proof (exec_accessor m w Hm) as Hw. rewrite E in Hw. simpl in Hw. subst w1.
    destruct (run (map Invoke ms) w) as [rs w2] eqn:E2. simpl in *. exact IH. }
  rewrite Hrun. split; [reflexivity|exact Hctx].
Qed.

Lemma accessors_leave_context_unchanged_witness :
  ctx (snd (run (map Invoke [Trace; UserCredentials; RemoteAddress; RequestorString;
                              RequestPb; ResponsePb]) (world0 true)))
    = Some (mkRpcContext 5 1 2).
Proof.
  apply (accessors_leave_context_unchanged
           [Trace; UserCredentials; RemoteAddress; RequestorString; RequestPb; ResponsePb]
           (world0 true) (mkRpcContext 5 1 2) eq_refl).
  repeat constructor.
Defined.

(** ** Further properties of the context *)

Lemma run_app (acts1 acts2 : list Action) (w : World) :
  snd (run (acts1 ++ acts2) w) = snd (run acts2 (snd (run acts1 w))).
Proof.
  revert w. induction acts1 as [|a rest IH]; intros w; [reflexivity|].
  simpl. destruct (step a w) as [r w1] eqn:E1.
  destruct (run (rest ++ acts2) w1) as [rs w2] eqn:E2.
  destruct (run rest w1) as [rs1 w3] eqn:E3. simpl.
  specialize (IH w1). rewrite E2, E3 in IH. simpl in IH. exact IH.
Qed.

(** Writing the response keeps the context, the call and the allocation
    of the response. *)
Lemma run_writes (ms : list Message) (w : World) (c : RpcContext) :
  ctx w = Some c -> is_Some (heap w !! response_pb_ c) ->
  ctx (snd (run (map WriteResponse ms) w)) = Some c /\
  call (snd (run (map WriteResponse ms) w)) = call w /\
  is_Some (heap (snd (run (map WriteResponse ms) w)) !! response_pb_ c).
Proof.
  revert w. induction ms as [|m ms IH]; intros w Hc Hr; [auto|].
  simpl. unfold exec. rewrite Hc. unfold store_message.
  destruct Hr as [old Hold]. rewrite Hold.
  destruct (run (map WriteResponse ms)
              (mkWorld (<[response_pb_ c:=m]> (heap w)) (ctx w) (call w) (metrics w)))
    as [rs w2] eqn:E.
  edestruct (IH (mkWorld (<[response_pb_ c:=m]> (heap w)) (ctx w) (call w) (metrics w)))
    as (H1 & H2 & H3); simpl; [exact Hc| rewrite lookup_insert_eq; eauto |].
  rewrite E in H1, H2, H3. simpl in *. auto.
Qed.

(** The handler prepares the response through [response_pb()] before
    [RespondSuccess] (header, lines 48-57): after any sequence of writes
    to the response, [RespondSuccess] hands the call the serialization of
    the last content written. *)
Theorem writes_then_success_send_last (ms : list Message) (m : Message)
    (w : World) (c : RpcContext) (Hctx : ctx w = Some c) (Hwf : ctx_wf w) :
  ic_responses (call (snd (run (map WriteResponse (ms ++ [m]) ++ [Invoke RespondSuccess]) w)))
    = ic_responses (call w) ++ [SuccessFrame (SerializeToString m)].
Proof.
  unfold ctx_wf in Hwf. rewrite Hctx in Hwf. destruct Hwf as (_ & _ & Hr).
  rewrite map_app, <- app_assoc, run_app, run_app.
  destruct (run_writes ms w c Hctx Hr) as (H1 & H2 & [old Hold]).
  set (w1 := snd (run (map WriteResponse ms) w)) in *.
  simpl. unfold exec. rewrite H1. unfold store_message. rewrite Hold. simpl.
  rewrite H1. simpl. rewrite lookup_insert_eq. simpl. rewrite H2. reflexivity.
Qed.

Lemma writes_then_success_send_last_witness :
  ic_responses (call (snd (run (map WriteResponse ([[]; request7] ++ [result_ok])
                                 ++ [Invoke RespondSuccess]) (world0 true))))
    = [SuccessFrame (SerializeToString result_ok)].
Proof.
  exact (writes_then_success_send_last [[]; request7] result_ok (world0 true)
           (mkRpcContext 5 1 2) eq_refl (world0_wf true)).
Defined.

Lemma step_foreign (c : RpcContext) (l : loc) (a : Action) (w : World) :
  l <> request_pb_ c -> l <> response_pb_ c ->
  ctx w = Some c \/ ctx w = None ->
  heap (snd (step a w)) !! l = heap w !! l /\
  (ctx (snd (step a w)) = Some c \/ ctx (snd (step a w)) = None).
Proof.
  intros Hl1 Hl2 [Hc|Hc].
  2: { rewrite (step_destroyed _ _ Hc). auto. }
  destruct a as [m|msg]; simpl; unfold exec; rewrite Hc.
  - destruct m; simpl; repeat case_match; simpl; split; auto;
      rewrite ?lookup_delete_ne by congruence; reflexivity.
  - unfold store_message. repeat case_match; simpl; split; auto.
    rewrite lookup_insert_ne by congruence. reflexivity.
Qed.

(** The context owns exactly its request and its response (header,
    lines 119-121): over any handler run, every other protobuf object in
    the heap keeps its allocation and its content. *)
Theorem run_preserves_foreign_objects (acts : list Action) (w : World)
    (c : RpcContext) (l : loc) (Hctx : ctx w = Some c)
    (Hl1 : l <> request_pb_ c) (Hl2 : l <> response_pb_ c) :
  heap (snd (run acts w)) !! l = heap w !! l.
Proof.
  assert (Hgen : forall w0, ctx w0 = Some c \/ ctx w0 = None ->
            heap (snd (run acts w0)) !! l = heap w0 !! l).
  { induction acts as [|a rest IH]; intros w0 H0; [reflexivity|].
    simpl. destruct (step a w0) as [r w1] eqn:E1.
    destruct (run rest w1) as [rs w2] eqn:E2. simpl.
    destruct (step_foreign c l a w0 Hl1 Hl2 H0) as [Hh Hc1].
    rewrite E1 in Hh, Hc1. simpl in Hh, Hc1.
    specialize (IH w1 Hc1). rewrite E2 in IH. simpl in IH. congruence. }
  apply Hgen. left. exact Hctx.
Qed.

Lemma run_preserves_foreign_objects_witness :
  heap (snd (run [WriteResponse result_ok; Invoke RespondSuccess]
                 (mkWorld (<[3%positive:=retry_after_30]> (heap (world0 true)))
                    (ctx (world0 true)) (call0 true) (mkMetrics 0 0)))) !! 3%positive
    = Some retry_after_30.
Proof.
  rewrite (run_preserves_foreign_objects [WriteResponse result_ok; Invoke RespondSuccess]
             (mkWorld (<[3%positive:=retry_after_30]> (heap (world0 true)))
                (ctx (world0 true)) (call0 true) (mkMetrics 0 0))
             (mkRpcContext 5 1 2) 3 eq_refl) by discriminate.
  reflexivity.
Defined.



